(** * ParticleBackground: a shallow embedding of the particle engine

    Source: src/components/ParticleBackground.tsx.

    Numbers.  JavaScript numbers are modelled as idealised reals [R]:
    rounding, overflow and underflow are not modelled.  The only place
    where the source can produce a non-finite value from finite inputs is
    the division [dx / distance] of the pointer repulsion, when
    [distance = 0] (then [dx = dy = 0] and both quotients are [0/0 = NaN]).
    A particle whose position received NaN there is kept in the store as a
    [Poisoned] slot: its velocity and fixed fields are still those of the
    record it carries, while its [x] and [y] hold NaN in the source (the
    record's own [x], [y] are then not meaningful).  NaN compares false
    with everything, so a poisoned particle is skipped by the wrap tests,
    the repulsion test, the burst test and the connection test, and stays
    poisoned forever.

    Randomness.  Every [Math.random()] call is an explicit argument: a real
    the caller draws, in [0, 1). *)

From Stdlib Require Import Reals Lra Lia QArith Qround Qminmax List.
Import ListNotations.
Open Scope R_scope.

(** ** Data model *)

(** A CSS colour [rgba(r, g, b, a)], as the template strings of the source
    build it. *)
Record Rgba := mkRgba { red : Z; green : Z; blue : Z; alpha : R }.

(** The [Particle] interface of [../types], with the fields the component
    writes in [initParticles]. *)
Record Particle := mkParticle {
  x : R; y : R;
  vx : R; vy : R;
  baseVx : R; baseVy : R;
  size : R;
  color : Rgba;
  baseX : R; baseY : R;
  density : R
}.

(** [p.x = nx; p.y = ny] *)
Definition set_pos (p : Particle) (nx ny : R) : Particle :=
  {| x := nx; y := ny; vx := vx p; vy := vy p; baseVx := baseVx p;
     baseVy := baseVy p; size := size p; color := color p;
     baseX := baseX p; baseY := baseY p; density := density p |}.

(** [p.vx = nvx; p.vy = nvy] *)
Definition set_vel (p : Particle) (nvx nvy : R) : Particle :=
  {| x := x p; y := y p; vx := nvx; vy := nvy; baseVx := baseVx p;
     baseVy := baseVy p; size := size p; color := color p;
     baseX := baseX p; baseY := baseY p; density := density p |}.

(** An entry of [particlesRef.current]: a particle with a finite position,
    or one whose [x] and [y] hold NaN (see the header). *)
Inductive Slot :=
| Live (p : Particle)
| Poisoned (p : Particle).

(** [mouseRef.current] *)
Module Pointer.
Record t := mk { x : R; y : R; isActive : bool }.
End Pointer.

(** JavaScript division of finite numbers: [None] when the divisor is 0,
    where the result is not a finite number (NaN for [0/0], an infinity
    otherwise). *)
Definition jsdiv (a b : R) : option R :=
  if Req_dec_T b 0 then None else Some (a / b).

(** [Math.atan2(y, x)] for finite arguments (ECMAScript 21.3.2.8).  A zero
    argument of the source is a difference [a - a], i.e. [+0]. *)
Definition atan2 (y x : R) : R :=
  if Rlt_dec 0 x then atan (y / x)
  else if Rlt_dec x 0 then
    (if Rle_dec 0 y then atan (y / x) + PI else atan (y / x) - PI)
  else if Rlt_dec 0 y then PI / 2
  else if Rlt_dec y 0 then - (PI / 2)
  else 0.

(** ** Burst: [handleInteractionStart(x, y)] (lines 40-59).  The centre is
    called [cx, cy] here, as [x] and [y] name the particle fields. *)

Definition burstRadius : R := 300.
Definition burstForce : R := 15.

Definition burst_particle (cx cy : R) (p : Particle) : Particle :=
  let dx := x p - cx in
  let dy := y p - cy in
  let distance := sqrt (dx * dx + dy * dy) in
  if Rlt_dec distance burstRadius then
    let force := (burstRadius - distance) / burstRadius in
    let angle := atan2 dy dx in
    set_vel p (vx p + cos angle * force * burstForce)
              (vy p + sin angle * force * burstForce)
  else p.

(** A poisoned particle has NaN coordinates: [distance] is NaN and the test
    [distance < burstRadius] is false. *)
Definition burst_slot (cx cy : R) (s : Slot) : Slot :=
  match s with
  | Live p => Live (burst_particle cx cy p)
  | Poisoned p => Poisoned p
  end.

Definition handleInteractionStart (cx cy : R) (store : list Slot) : list Slot :=
  map (burst_slot cx cy) store.

(** ** Force integrator: the body of [particlesRef.current.forEach] in
    [animate] (lines 118-170), stage by stage. *)

(** 1. Friction / recovery (lines 123-124). *)
Definition recover (p : Particle) : Particle :=
  set_vel p (vx p * 0.96 + baseVx p * 0.04) (vy p * 0.96 + baseVy p * 0.04).

(** 2. Alarm jitter (lines 127-132), from the two draws [rx], [ry] of
    [Math.random()] made when [isAlarming] holds. *)
Definition jitter (isAlarming : bool) (rx ry : R) : R * R :=
  if isAlarming then ((rx - 0.5) * 4, (ry - 0.5) * 4) else (0, 0).

(** 3. Position update (lines 135-136). *)
Definition move (p : Particle) (j : R * R) : Particle :=
  set_pos p (x p + vx p + fst j) (y p + vy p + snd j).

(** 4. Wrap around (lines 139-142): [if (c < 0) c = dim; if (c > dim) c = 0]. *)
Definition wrap_coord (c dim : R) : R :=
  let c1 := if Rlt_dec c 0 then dim else c in
  if Rlt_dec dim c1 then 0 else c1.

Definition wrap (width height : R) (p : Particle) : Particle :=
  set_pos p (wrap_coord (x p) width) (wrap_coord (y p) height).

(** 5. Pointer repulsion (lines 145-164). *)
Definition forceRadius : R := 250.

Definition repel (m : Pointer.t) (p : Particle) : Slot :=
  if Pointer.isActive m then
    let dx := Pointer.x m - x p in
    let dy := Pointer.y m - y p in
    let distance := sqrt (dx * dx + dy * dy) in
    if Rlt_dec distance forceRadius then
      match jsdiv dx distance, jsdiv dy distance with
      | Some forceDirectionX, Some forceDirectionY =>
          let maxDistance := forceRadius in
          let force := (maxDistance - distance) / maxDistance in
          let directionX := forceDirectionX * force * density p * 1.5 in
          let directionY := forceDirectionY * force * density p * 1.5 in
          Live (set_pos p (x p - directionX) (y p - directionY))
      | _, _ => Poisoned p
      end
    else Live p
  else Live p.

(** One particle's update in one tick; [rx], [ry] are the jitter draws. *)
Definition step_particle (isAlarming : bool) (m : Pointer.t) (width height : R)
    (rx ry : R) (p : Particle) : Slot :=
  repel m (wrap width height (move (recover p) (jitter isAlarming rx ry))).

(** On a poisoned particle only the velocity recovery has an effect: every
    position expression is NaN and every test on it is false. *)
Definition step_slot (isAlarming : bool) (m : Pointer.t) (width height : R)
    (rx ry : R) (s : Slot) : Slot :=
  match s with
  | Live p => step_particle isAlarming m width height rx ry p
  | Poisoned p => Poisoned (recover p)
  end.

(** ** Rendering: draw commands issued by [animate] *)

Inductive Cmd :=
(** [ctx.arc(p.x, p.y, p.size, 0, 2 PI); ctx.fillStyle = p.color; ctx.fill()] *)
| Disc (cx cy radius : R) (fill : Rgba)
(** the stroke issued at loop indices [i], [j] (lines 184-191) *)
| Segment (i j : nat) (x1 y1 x2 y2 : R) (stroke : Rgba) (lineWidth : R).

(** A disc with a NaN centre is not drawn. *)
Definition draw_slot (s : Slot) : list Cmd :=
  match s with
  | Live p => [Disc (x p) (y p) (size p) (color p)]
  | Poisoned _ => []
  end.

(** The [forEach] of lines 118-170 with the index of each particle, which
    selects its jitter draws [rnd i]. *)
Fixpoint integrate (isAlarming : bool) (m : Pointer.t) (width height : R)
    (rnd : nat -> R * R) (i : nat) (store : list Slot) : list Slot * list Cmd :=
  match store with
  | [] => ([], [])
  | s :: rest =>
      let s' := step_slot isAlarming m width height (fst (rnd i)) (snd (rnd i)) s in
      let '(rest', cmds) := integrate isAlarming m width height rnd (S i) rest in
      (s' :: rest', draw_slot s' ++ cmds)
  end.

Definition connectDistance : R := 120.

Definition distance (p q : Particle) : R :=
  let dx := x p - x q in
  let dy := y p - y q in
  sqrt (dx * dx + dy * dy).

Definition strokeStyle (isDark : bool) (d : R) : Rgba :=
  if isDark then mkRgba 255 255 255 (0.08 - d / 1500)
  else mkRgba 0 0 0 (0.08 - d / 1500).

(** Inner loop [for (j = i + 1; ...)] with [particles[i] = p]. *)
Fixpoint connect_from (isDark : bool) (i : nat) (p : Particle) (j : nat)
    (rest : list Slot) : list Cmd :=
  match rest with
  | [] => []
  | Live q :: rest' =>
      (if Rlt_dec (distance p q) connectDistance then
         [Segment i j (x p) (y p) (x q) (y q)
            (strokeStyle isDark (distance p q)) 0.5]
       else [])
      ++ connect_from isDark i p (S j) rest'
  | Poisoned _ :: rest' => connect_from isDark i p (S j) rest'
  end.

(** Outer loop [for (i = 0; i < particles.length; i++)] (lines 174-194). *)
Fixpoint connect (isDark : bool) (i : nat) (particles : list Slot) : list Cmd :=
  match particles with
  | [] => []
  | Live p :: rest => connect_from isDark i p (S i) rest ++ connect isDark (S i) rest
  | Poisoned _ :: rest => connect isDark (S i) rest
  end.

(** One call of [animate]: integration with its discs, then the connecting
    lines over the updated store. *)
Definition animate (isDark isAlarming : bool) (m : Pointer.t) (width height : R)
    (rnd : nat -> R * R) (store : list Slot) : list Slot * list Cmd :=
  let '(store', discs) := integrate isAlarming m width height rnd 0 store in
  (store', discs ++ connect isDark 0 store').

(** ** Particle store initialisation: [initParticles] (lines 86-113) *)

(** The seven [Math.random()] draws of one loop iteration, in the order the
    object literal evaluates them. *)
Record Draws := mkDraws {
  r_x : R; r_y : R; r_vx : R; r_vy : R; r_size : R; r_color : R; r_density : R
}.

Definition new_particle (isDark : bool) (width height : R) (d : Draws) : Particle :=
  let x0 := r_x d * width in
  let y0 := r_y d * height in
  let vx0 := (r_vx d - 0.5) * 0.3 in
  let vy0 := (r_vy d - 0.5) * 0.3 in
  {| x := x0; y := y0; vx := vx0; vy := vy0; baseVx := vx0; baseVy := vy0;
     size := r_size d * 2 + 1;
     color := if isDark then mkRgba 255 255 255 (r_color d * 0.2 + 0.1)
              else mkRgba 0 0 0 (r_color d * 0.15 + 0.05);
     baseX := x0; baseY := y0;
     density := r_density d * 30 + 1 |}.

(** [for (let i = 0; i < count; i++)] with a real bound [count], run on a
    fuel argument; [count <= 100], so a fuel of 101 is never exhausted. *)
Fixpoint init_loop (fuel : nat) (i : nat) (count : Q) (mk : nat -> Particle)
    : list Particle :=
  match fuel with
  | O => []
  | S f =>
      if Qlt_le_dec (inject_Z (Z.of_nat i)) count
      then mk i :: init_loop f (S i) count mk
      else []
  end.

(** [const count = Math.min(window.innerWidth / 15, 100)]; the canvas has
    just been sized to the window by [resizeCanvas]. *)
Definition particle_count (innerWidth : Z) : Q := Qmin (innerWidth # 15) 100.

Definition initParticles (isDark : bool) (innerWidth innerHeight : Z)
    (rnd : nat -> Draws) : list Slot :=
  map Live (init_loop 101 0 (particle_count innerWidth)
              (fun i => new_particle isDark (IZR innerWidth) (IZR innerHeight) (rnd i))).

(** ** Lifecycle: the [useEffect] with dependencies [[isDark, isAlarming]]
    (lines 17-213) *)

(** The state the component keeps across renders: the dependencies of the
    running effect, [particlesRef.current], [mouseRef.current] and the
    canvas size. *)
Record Engine := mkEngine {
  deps : bool * bool;
  store : list Slot;
  mouse : Pointer.t;
  canvas_w : Z;
  canvas_h : Z
}.

(** The effect body: [resizeCanvas()] (canvas sized to the window, then
    [initParticles()]), then the first [animate()]; [mouseRef] is a ref and
    survives re-runs. *)
Definition run_effect (isDark isAlarming : bool) (innerWidth innerHeight : Z)
    (m : Pointer.t) (init_rnd : nat -> Draws) (tick_rnd : nat -> R * R) : Engine :=
  let store0 := initParticles isDark innerWidth innerHeight init_rnd in
  let '(store1, _) :=
    animate isDark isAlarming m (IZR innerWidth) (IZR innerHeight) tick_rnd store0 in
  mkEngine (isDark, isAlarming) store1 m innerWidth innerHeight.

(** A scheduled [animate()] of the running effect: its closure sees the
    flags of that effect. *)
Definition frame (e : Engine) (tick_rnd : nat -> R * R) : Engine :=
  let '(isDark, isAlarming) := deps e in
  let '(store1, _) :=
    animate isDark isAlarming (mouse e) (IZR (canvas_w e)) (IZR (canvas_h e))
      tick_rnd (store e) in
  mkEngine (deps e) store1 (mouse e) (canvas_w e) (canvas_h e).

(** A render of the component with new props: when a dependency changed,
    React runs the cleanup (the pending frame is cancelled, the listeners
    removed) and the effect again. *)
Definition rerender (e : Engine) (isDark isAlarming : bool)
    (innerWidth innerHeight : Z) (init_rnd : nat -> Draws)
    (tick_rnd : nat -> R * R) : Engine :=
  if Bool.eqb (fst (deps e)) isDark && Bool.eqb (snd (deps e)) isAlarming
  then e
  else run_effect isDark isAlarming innerWidth innerHeight (mouse e) init_rnd tick_rnd.

(** [handleMouseMove] (lines 24-26). *)
Definition handleMouseMove (e : Engine) (clientX clientY : R) : Engine :=
  mkEngine (deps e) (store e) (Pointer.mk clientX clientY true) (canvas_w e) (canvas_h e).

(** [handleInteractionEnd] (lines 35-37), on [mouseup] and [touchend]. *)
Definition handleInteractionEnd (e : Engine) : Engine :=
  mkEngine (deps e) (store e)
    (Pointer.mk (Pointer.x (mouse e)) (Pointer.y (mouse e)) false)
    (canvas_w e) (canvas_h e).




(** [resizeCanvas] (lines 80-84), the [resize] listener: the canvas takes
    the window size and the store is re-created ([initParticles] sees the
    [isDark] of the running effect). *)
Definition resizeCanvas (e : Engine) (innerWidth innerHeight : Z)
    (rnd : nat -> Draws) : Engine :=
  mkEngine (deps e) (initParticles (fst (deps e)) innerWidth innerHeight rnd)
    (mouse e) innerWidth innerHeight.

(** ** Auxiliary definitions for the statements *)

(** The fields a particle is created with and that no operation writes. *)
Definition fixed_fields (p : Particle) : R * R * R * Rgba * R * R * R :=
  (baseVx p, baseVy p, size p, color p, baseX p, baseY p, density p).

Definition slot_particle (s : Slot) : Particle :=
  match s with Live p | Poisoned p => p end.

(** [ticks n] runs [n] integration steps of one particle. *)
Fixpoint ticks (isAlarming : bool) (m : Pointer.t) (width height : R)
    (rnd : nat -> R * R) (n : nat) (s : Slot) : Slot :=
  match n with
  | O => s
  | S k => ticks isAlarming m width height rnd k
             (step_slot isAlarming m width height (fst (rnd n)) (snd (rnd n)) s)
  end.

(** [Math.round] on a rational. *)
Definition js_round (q : Q) : Z := Qfloor (q + (1 # 2)).

(** ** Generic facts about the embedding *)

Ltac destruct_jsdiv :=
  repeat match goal with
  | |- context [jsdiv ?a ?b] => destruct (jsdiv a b)
  end.

Lemma set_pos_fixed p nx ny : fixed_fields (set_pos p nx ny) = fixed_fields p.
Proof. reflexivity. Qed.

Lemma set_vel_fixed p nvx nvy : fixed_fields (set_vel p nvx nvy) = fixed_fields p.
Proof. reflexivity. Qed.

Lemma repel_fixed m p : fixed_fields (slot_particle (repel m p)) = fixed_fields p.
Proof.
  unfold repel.
  destruct (Pointer.isActive m); [|reflexivity].
  destruct (Rlt_dec _ _); [|reflexivity].
  destruct_jsdiv; reflexivity.
Qed.

Lemma repel_vel m p :
  vx (slot_particle (repel m p)) = vx p /\ vy (slot_particle (repel m p)) = vy p.
Proof.
  unfold repel.
  destruct (Pointer.isActive m); [|auto].
  destruct (Rlt_dec _ _); [|auto].
  destruct_jsdiv; simpl; auto.
Qed.

Lemma step_slot_vel isAlarming m w h rx ry s :
  vx (slot_particle (step_slot isAlarming m w h rx ry s))
    = vx (slot_particle s) * 0.96 + baseVx (slot_particle s) * 0.04 /\
  vy (slot_particle (step_slot isAlarming m w h rx ry s))
    = vy (slot_particle s) * 0.96 + baseVy (slot_particle s) * 0.04.
Proof.
  destruct s as [p|p]; simpl; [|auto].
  unfold step_particle.
  destruct (repel_vel m (wrap w h (move (recover p) (jitter isAlarming rx ry))))
    as [-> ->].
  simpl; auto.
Qed.

Lemma step_slot_fixed isAlarming m w h rx ry s :
  fixed_fields (slot_particle (step_slot isAlarming m w h rx ry s))
    = fixed_fields (slot_particle s).
Proof.
  destruct s as [p|p]; simpl; [|reflexivity].
  unfold step_particle. rewrite repel_fixed. reflexivity.
Qed.

Lemma wrap_coord_range c dim : 0 <= dim -> 0 <= wrap_coord c dim <= dim.
Proof.
  intros Hd. unfold wrap_coord.
  destruct (Rlt_dec c 0); destruct (Rlt_dec dim _); lra.
Qed.

Lemma integrate_store isAlarming m w h rnd i store :
  fst (integrate isAlarming m w h rnd i store)
    = map (fun '(k, s) => step_slot isAlarming m w h (fst (rnd k)) (snd (rnd k)) s)
        (combine (seq i (length store)) store).
Proof.
  revert i. induction store as [|s rest IH]; intros i; [reflexivity|].
  simpl. specialize (IH (S i)).
  destruct (integrate isAlarming m w h rnd (S i) rest) as [rest' cmds].
  simpl in *. now rewrite IH.
Qed.

Lemma ticks_fixed isAlarming m w h rnd n s :
  fixed_fields (slot_particle (ticks isAlarming m w h rnd n s))
    = fixed_fields (slot_particle s).
Proof.
  revert s. induction n as [|n IH]; intros s; [reflexivity|].
  simpl. rewrite IH. apply step_slot_fixed.
Qed.

Lemma ticks_vx isAlarming m w h rnd n s :
  vx (slot_particle (ticks isAlarming m w h rnd n s)) - baseVx (slot_particle s)
    = 0.96 ^ n * (vx (slot_particle s) - baseVx (slot_particle s)) /\
  vy (slot_particle (ticks isAlarming m w h rnd n s)) - baseVy (slot_particle s)
    = 0.96 ^ n * (vy (slot_particle s) - baseVy (slot_particle s)).
Proof.
  revert s. induction n as [|n IH]; intros s; [cbn [ticks pow]; split; ring|].
  simpl.
  set (s1 := step_slot isAlarming m w h (fst (rnd (S n))) (snd (rnd (S n))) s).
  destruct (IH s1) as [Hx Hy].
  pose proof (step_slot_fixed isAlarming m w h (fst (rnd (S n))) (snd (rnd (S n))) s)
    as Hf.
  fold s1 in Hf. unfold fixed_fields in Hf.
  injection Hf as Hbx Hby _ _ _ _ _.
  destruct (step_slot_vel isAlarming m w h (fst (rnd (S n))) (snd (rnd (S n))) s)
    as [Hvx Hvy].
  fold s1 in Hvx, Hvy.
  rewrite Hbx in Hx. rewrite Hby in Hy.
  rewrite Hx, Hy, Hvx, Hvy. cbn [pow]. set (k := 0.96 ^ n). split; lra.
Qed.

(** ** Claims *)

(** Sample particles. *)
Definition sample_draws : Draws := mkDraws (1/2) (1/2) (1/2) (1/2) (1/2) (1/2) (1/2).

(** The particle created with [Math.random() = 0] for its [x] and its
    [vx]: it sits on the left edge and drifts left at [-0.15]. *)
Definition left_edge_particle : Particle :=
  new_particle false 800 600 (mkDraws 0 (1/2) 0 (1/2) (1/2) (1/2) (1/2)).

(** C2, counterexample: a particle leaving the left edge is put at
    [x = width] by the wrap step, so [x < width] fails after the wrap. *)
Lemma C2_counterexample :
  x (wrap 800 600 (move (recover left_edge_particle) (jitter false 0 0))) = 800.
Proof.
  unfold wrap, move, recover, jitter, left_edge_particle, new_particle, wrap_coord.
  simpl.
  destruct (Rlt_dec _ 0); [|lra].
  destruct (Rlt_dec 800 800); lra.
Qed.

(** C2 (amended): after the wrap step, [x] lies in the closed interval
    [[0, width]] and [y] in [[0, height]]: a coordinate below 0 is moved to
    the far edge itself, one above the dimension to 0. *)
Theorem C2_wrap_closed_range (width height : R) (p : Particle) :
  0 <= width -> 0 <= height ->
  0 <= x (wrap width height p) <= width /\ 0 <= y (wrap width height p) <= height.
Proof.
  intros Hw Hh. unfold wrap. simpl.
  split; apply wrap_coord_range; assumption.
Qed.

Lemma C2_wrap_closed_range_witness :
  (0 <= x (wrap 800 600 (move (recover left_edge_particle) (jitter false 0 0))) <= 800 /\
   0 <= y (wrap 800 600 (move (recover left_edge_particle) (jitter false 0 0))) <= 600).
Proof. apply C2_wrap_closed_range; lra. Defined.

(** C5: each tick sets [v := v*0.96 + baseV*0.04] on each axis; hence after
    [n] ticks [|v - baseV| <= 0.96^n * |v0 - baseV|] on each axis.  This
    holds for any pointer state, alarm flag and jitter draws, since neither
    the repulsion nor the jitter writes the velocity. *)
Theorem C5_velocity_relaxation (isAlarming : bool) (m : Pointer.t) (width height : R)
    (rnd : nat -> R * R) (rx ry : R) (n : nat) (p : Particle) :
  (vx (slot_particle (step_particle isAlarming m width height rx ry p))
     = vx p * 0.96 + baseVx p * 0.04 /\
   vy (slot_particle (step_particle isAlarming m width height rx ry p))
     = vy p * 0.96 + baseVy p * 0.04) /\
  Rabs (vx (slot_particle (ticks isAlarming m width height rnd n (Live p))) - baseVx p)
    <= 0.96 ^ n * Rabs (vx p - baseVx p) /\
  Rabs (vy (slot_particle (ticks isAlarming m width height rnd n (Live p))) - baseVy p)
    <= 0.96 ^ n * Rabs (vy p - baseVy p).
Proof.
  split; [apply (step_slot_vel isAlarming m width height rx ry (Live p))|].
  destruct (ticks_vx isAlarming m width height rnd n (Live p)) as [Hx Hy].
  simpl in Hx, Hy. rewrite Hx, Hy.
  assert (Hpos : 0 <= 0.96 ^ n) by (apply pow_le; lra).
  rewrite !Rabs_mult, (Rabs_pos_eq (0.96 ^ n) Hpos). lra.
Qed.

(** C9: neither an integration tick nor a burst writes [baseVx], [baseVy],
    [size], [color], [baseX], [baseY] or [density]; only [x], [y], [vx],
    [vy] change (also for a particle whose position became NaN). *)
Theorem C9_fixed_fields_immutable :
  (forall (isAlarming : bool) (m : Pointer.t) (width height : R)
          (rnd : nat -> R * R) (i : nat) (st : list Slot),
     map (fun s => fixed_fields (slot_particle s))
         (fst (integrate isAlarming m width height rnd i st))
     = map (fun s => fixed_fields (slot_particle s)) st) /\
  (forall (cx cy : R) (st : list Slot),
     map (fun s => fixed_fields (slot_particle s)) (handleInteractionStart cx cy st)
     = map (fun s => fixed_fields (slot_particle s)) st).
Proof.
  split.
  - intros isAlarming m width height rnd i st.
    rewrite integrate_store. revert i.
    induction st as [|s rest IH]; intros i; [reflexivity|].
    simpl. rewrite step_slot_fixed. f_equal. apply IH.
  - intros cx cy st. unfold handleInteractionStart.
    rewrite map_map. apply map_ext. intros [p|p]; simpl; [|reflexivity].
    unfold burst_particle.
    destruct (Rlt_dec _ _); reflexivity.
Qed.

Lemma init_loop_length fuel i k count mk :
  (forall m, (m < k)%nat -> (inject_Z (Z.of_nat (i + m)) < count)%Q) ->
  ~ (inject_Z (Z.of_nat (i + k)) < count)%Q ->
  (k < fuel)%nat ->
  length (init_loop fuel i count mk) = k.
Proof.
  revert i k. induction fuel as [|f IH]; intros i k Hlt Hge Hf; [lia|].
  simpl. destruct (Qlt_le_dec (inject_Z (Z.of_nat i)) count) as [Hi|Hi].
  - destruct k as [|k].
    + exfalso. apply Hge. now rewrite Nat.add_0_r.
    + simpl. f_equal. apply IH.
      * intros j Hj. replace (S i + j)%nat with (i + S j)%nat by lia.
        apply Hlt. lia.
      * now replace (S i + k)%nat with (i + S k)%nat by lia.
      * lia.
  - destruct k as [|k]; [reflexivity|].
    exfalso. specialize (Hlt 0%nat ltac:(lia)). rewrite Nat.add_0_r in Hlt.
    apply (Qlt_not_le _ _ Hlt Hi).
Qed.

Lemma particle_count_range (w : Z) :
  (0 <= w)%Z -> (0 <= particle_count w <= 100)%Q.
Proof.
  intros Hw. unfold particle_count. split.
  - apply Q.min_glb.
    + unfold Qle; simpl; lia.
    + unfold Qle; simpl; lia.
  - apply Q.le_min_r.
Qed.

(** C3, counterexample: a 20 px wide window gives [count = 20/15 = 1.33...];
    the loop [i < count] runs for [i = 0] and [i = 1], creating 2 particles,
    while [min(round(20/15), 100) = 1]. *)
Lemma C3_counterexample :
  length (initParticles false 20 600 (fun _ => sample_draws)) = 2%nat /\
  Z.min (js_round (20 # 15)) 100 = 1%Z.
Proof. split; reflexivity. Qed.

(** C3 (amended): for a window width [w >= 0], initialisation creates
    [ceil(min(w/15, 100))] particles: a number between 0 and 100. *)
Theorem C3_particle_count (isDark : bool) (innerWidth innerHeight : Z)
    (rnd : nat -> Draws) :
  (0 <= innerWidth)%Z ->
  length (initParticles isDark innerWidth innerHeight rnd)
    = Z.to_nat (Qceiling (Qmin (innerWidth # 15) 100)) /\
  (0 <= Qceiling (Qmin (innerWidth # 15) 100) <= 100)%Z.
Proof.
  intros Hw.
  destruct (particle_count_range innerWidth Hw) as [H0 H100].
  fold (particle_count innerWidth).
  set (c := particle_count innerWidth) in *.
  assert (Hz0 : (0 <= Qceiling c)%Z).
  { change 0%Z with (Qceiling (inject_Z 0)). now apply Qceiling_resp_le. }
  assert (Hz1 : (Qceiling c <= 100)%Z).
  { change 100%Z with (Qceiling (inject_Z 100)). now apply Qceiling_resp_le. }
  split; [|lia].
  unfold initParticles. rewrite length_map. fold c.
  apply init_loop_length.
  - intros j Hj. simpl.
    apply Qle_lt_trans with (inject_Z (Qceiling c - 1)); [|apply Qceiling_lt].
    rewrite <- Zle_Qle. lia.
  - simpl. apply Qle_not_lt.
    apply Qle_trans with (inject_Z (Qceiling c)); [apply Qle_ceiling|].
    rewrite <- Zle_Qle. lia.
  - lia.
Qed.

Lemma C3_particle_count_witness :
  length (initParticles false 20 600 (fun _ => sample_draws))
    = Z.to_nat (Qceiling (Qmin (20 # 15) 100)) /\
  (0 <= Qceiling (Qmin (20 # 15) 100) <= 100)%Z.
Proof. apply C3_particle_count. lia. Defined.

Lemma connect_from_spec isDark i p j rest c :
  In c (connect_from isDark i p j rest) <->
  exists m q, nth_error rest m = Some (Live q) /\ distance p q < connectDistance /\
    c = Segment i (j + m) (x p) (y p) (x q) (y q) (strokeStyle isDark (distance p q)) 0.5.
Proof.
  revert j. induction rest as [|s rest IH]; intros j.
  - simpl. split; [tauto|]. intros (m & q & Hn & _). destruct m; discriminate.
  - destruct s as [q|q]; simpl.
    + rewrite in_app_iff, IH. split.
      * intros [Hc|(m & q' & Hn & Hd & ->)].
        -- destruct (Rlt_dec (distance p q) connectDistance) as [Hd|Hd];
             [|destruct Hc].
           destruct Hc as [<-|[]].
           exists 0%nat, q. rewrite Nat.add_0_r. auto.
        -- exists (S m), q'. rewrite <- plus_n_Sm. auto.
      * intros ([|m] & q' & Hn & Hd & ->); simpl in Hn.
        -- injection Hn as <-. left.
           destruct (Rlt_dec (distance p q) connectDistance); [|contradiction].
           left. now rewrite Nat.add_0_r.
        -- right. exists m, q'. rewrite <- plus_n_Sm. auto.
    + rewrite IH. split.
      * intros (m & q' & Hn & Hd & ->). exists (S m), q'.
        rewrite <- plus_n_Sm. auto.
      * intros ([|m] & q' & Hn & Hd & ->); simpl in Hn; [discriminate|].
        exists m, q'. rewrite <- plus_n_Sm. auto.
Qed.

Lemma connect_spec isDark k ps c :
  In c (connect isDark k ps) <->
  exists i j p q, (i < j)%nat /\ nth_error ps i = Some (Live p) /\
    nth_error ps j = Some (Live q) /\ distance p q < connectDistance /\
    c = Segment (k + i) (k + j) (x p) (y p) (x q) (y q)
          (strokeStyle isDark (distance p q)) 0.5.
Proof.
  revert k. induction ps as [|s rest IH]; intros k.
  - simpl. split; [tauto|]. intros (i & j & p & q & _ & Hn & _).
    destruct i; discriminate.
  - destruct s as [p|p]; simpl.
    + rewrite in_app_iff, connect_from_spec, IH. split.
      * intros [(m & q & Hn & Hd & ->)|(i & j & p' & q & Hij & Hi & Hj & Hd & ->)].
        -- exists 0%nat, (S m), p, q. rewrite Nat.add_0_r, <- plus_n_Sm.
           repeat split; auto. lia.
        -- exists (S i), (S j), p', q. rewrite <- !plus_n_Sm.
           repeat split; auto. lia.
      * intros ([|i] & [|j] & p' & q & Hij & Hi & Hj & Hd & ->);
          simpl in Hi, Hj; try lia.
        -- left. injection Hi as <-. exists j, q.
           rewrite Nat.add_0_r, <- plus_n_Sm. auto.
        -- right. exists i, j, p', q. rewrite <- !plus_n_Sm.
           repeat split; auto. lia.
    + rewrite IH. split.
      * intros (i & j & p' & q & Hij & Hi & Hj & Hd & ->).
        exists (S i), (S j), p', q. rewrite <- !plus_n_Sm.
        repeat split; auto. lia.
      * intros ([|i] & [|j] & p' & q & Hij & Hi & Hj & Hd & ->);
          simpl in Hi, Hj; try lia; try discriminate.
        exists i, j, p', q. rewrite <- !plus_n_Sm. repeat split; auto. lia.
Qed.

Lemma integrate_cmds_discs isAlarming m w h rnd i st c :
  In c (snd (integrate isAlarming m w h rnd i st)) ->
  exists cx cy r f, c = Disc cx cy r f.
Proof.
  revert i. induction st as [|s rest IH]; intros i; simpl; [tauto|].
  specialize (IH (S i)).
  destruct (integrate isAlarming m w h rnd (S i) rest) as [rest' cmds].
  simpl in *. rewrite in_app_iff. intros [Hc|Hc]; [|auto].
  destruct (step_slot _ _ _ _ _ _ s); simpl in Hc; [|contradiction].
  destruct Hc as [<-|[]]. eauto.
Qed.

(** C7: in a frame, a segment is stroked between the updated particles [i]
    and [j] ([i < j]) exactly when their distance is [< 120] (none at 120),
    once per unordered pair, with alpha [0.08 - distance/1500] and line
    width [0.5]; no other segment is stroked. *)
Theorem C7_connection_threshold (isDark isAlarming : bool) (m : Pointer.t)
    (width height : R) (rnd : nat -> R * R) (st : list Slot) :
  let '(st', cmds) := animate isDark isAlarming m width height rnd st in
  (forall i j x1 y1 x2 y2 stroke lw,
     In (Segment i j x1 y1 x2 y2 stroke lw) cmds ->
     exists p q, (i < j)%nat /\ nth_error st' i = Some (Live p) /\
       nth_error st' j = Some (Live q) /\ distance p q < 120 /\
       x1 = x p /\ y1 = y p /\ x2 = x q /\ y2 = y q /\
       alpha stroke = 0.08 - distance p q / 1500 /\ lw = 0.5) /\
  (forall i j p q, (i < j)%nat ->
     nth_error st' i = Some (Live p) -> nth_error st' j = Some (Live q) ->
     ((exists x1 y1 x2 y2 stroke lw, In (Segment i j x1 y1 x2 y2 stroke lw) cmds)
      <-> distance p q < 120)).
Proof.
  unfold animate.
  destruct (integrate isAlarming m width height rnd 0 st) as [st' discs] eqn:E.
  assert (Hseg : forall i j x1 y1 x2 y2 stroke lw,
             In (Segment i j x1 y1 x2 y2 stroke lw) (discs ++ connect isDark 0 st') <->
             In (Segment i j x1 y1 x2 y2 stroke lw) (connect isDark 0 st')).
  { intros. rewrite in_app_iff. split; [|auto]. intros [H|H]; [|exact H].
    pose proof (integrate_cmds_discs isAlarming m width height rnd 0 st
                  (Segment i j x1 y1 x2 y2 stroke lw)) as Hd.
    rewrite E in Hd. destruct (Hd H) as (? & ? & ? & ? & ?). discriminate. }
  split.
  - intros i j x1 y1 x2 y2 stroke lw H.
    apply Hseg, connect_spec in H.
    destruct H as (i' & j' & p & q & Hij & Hi & Hj & Hd & Hc).
    injection Hc as -> -> -> -> -> -> -> ->.
    exists p, q. unfold connectDistance in Hd.
    repeat split; auto.
    unfold strokeStyle. destruct isDark; reflexivity.
  - intros i j p q Hij Hi Hj. split.
    + intros (x1 & y1 & x2 & y2 & stroke & lw & H).
      apply Hseg, connect_spec in H.
      destruct H as (i' & j' & p' & q' & _ & Hi' & Hj' & Hd & Hc).
      injection Hc as -> -> _ _ _ _ _ _.
      rewrite Hi in Hi'. rewrite Hj in Hj'.
      injection Hi' as <-. injection Hj' as <-. exact Hd.
    + intros Hd.
      exists (x p), (y p), (x q), (y q), (strokeStyle isDark (distance p q)), 0.5.
      apply Hseg, connect_spec. exists i, j, p, q. auto.
Qed.

Lemma sqrt_sum_sq_pos dx dy :
  let d := sqrt (dx * dx + dy * dy) in 0 <= d /\ d * d = dx * dx + dy * dy.
Proof.
  simpl. split; [apply sqrt_pos|]. apply sqrt_sqrt. nra.
Qed.

Lemma sqrt_one_plus_ratio dx dy c :
  0 < c -> c * c = dx * dx -> 0 < sqrt (dx * dx + dy * dy) ->
  sqrt (1 + (dy / dx)²) = sqrt (dx * dx + dy * dy) / c.
Proof.
  intros Hc Hcc Hd.
  destruct (sqrt_sum_sq_pos dx dy) as [_ Hdd].
  set (d := sqrt (dx * dx + dy * dy)) in *.
  assert (Hdx : dx <> 0) by (intro; subst; nra).
  apply sqrt_lem_1.
  - pose proof (Rle_0_sqr (dy / dx)). lra.
  - apply Rlt_le, Rdiv_lt_0_compat; assumption.
  - unfold Rsqr.
    replace (d / c * (d / c)) with (d * d / (c * c)) by (field; lra).
    rewrite Hdd, Hcc. field. exact Hdx.
Qed.

Lemma atan2_cos_sin dx dy :
  0 < sqrt (dx * dx + dy * dy) ->
  cos (atan2 dy dx) = dx / sqrt (dx * dx + dy * dy) /\
  sin (atan2 dy dx) = dy / sqrt (dx * dx + dy * dy).
Proof.
  intros Hd.
  destruct (sqrt_sum_sq_pos dx dy) as [_ Hdd].
  unfold atan2.
  destruct (Rlt_dec 0 dx) as [Hpos|Hpos].
  - rewrite cos_atan, sin_atan, (sqrt_one_plus_ratio dx dy dx); [|lra|ring|exact Hd].
    split; field; lra.
  - destruct (Rlt_dec dx 0) as [Hneg|Hneg].
    + assert (Hc : cos (atan (dy / dx) - PI) = - cos (atan (dy / dx)) /\
                   sin (atan (dy / dx) - PI) = - sin (atan (dy / dx))).
      { rewrite cos_minus, sin_minus, cos_PI, sin_PI. split; ring. }
      assert (Hs : sqrt (1 + (dy / dx)²) = sqrt (dx * dx + dy * dy) / (- dx))
        by (apply sqrt_one_plus_ratio; [lra|ring|exact Hd]).
      destruct (Rle_dec 0 dy);
        [rewrite neg_cos, neg_sin | destruct Hc as [-> ->]];
        rewrite cos_atan, sin_atan, Hs; split; field; lra.
    + assert (dx = 0) by lra. subst dx.
      destruct (Rlt_dec 0 dy) as [Hy|Hy].
      * replace (sqrt (0 * 0 + dy * dy)) with dy
          by (symmetry; apply sqrt_lem_1; nra).
        rewrite cos_PI2, sin_PI2. split; field; lra.
      * destruct (Rlt_dec dy 0) as [Hy'|Hy'].
        -- replace (sqrt (0 * 0 + dy * dy)) with (- dy)
             by (symmetry; apply sqrt_lem_1; nra).
           rewrite cos_neg, sin_neg, cos_PI2, sin_PI2. split; field; lra.
        -- assert (dy = 0) by lra. subst dy.
           rewrite Rmult_0_l, Rplus_0_l, sqrt_0 in Hd. lra.
Qed.

Definition center_distance (cx cy : R) (p : Particle) : R :=
  sqrt ((x p - cx) * (x p - cx) + (y p - cy) * (y p - cy)).

(** The velocity change a burst at [(cx, cy)] gives to [p]. *)
Definition burst_delta (cx cy : R) (p : Particle) : R * R :=
  (vx (burst_particle cx cy p) - vx p, vy (burst_particle cx cy p) - vy p).

Definition norm (v : R * R) : R := sqrt (fst v * fst v + snd v * snd v).

Lemma burst_inside cx cy p :
  0 < center_distance cx cy p < burstRadius ->
  burst_delta cx cy p =
    (15 * (300 - center_distance cx cy p) / 300 / center_distance cx cy p * (x p - cx),
     15 * (300 - center_distance cx cy p) / 300 / center_distance cx cy p * (y p - cy)).
Proof.
  unfold burst_delta, center_distance, burst_particle. cbv zeta.
  intros [Hd Hlt].
  destruct (Rlt_dec _ burstRadius) as [_|]; [|contradiction].
  destruct (atan2_cos_sin (x p - cx) (y p - cy) Hd) as [-> ->].
  unfold burstRadius, burstForce. simpl. f_equal; field; lra.
Qed.

Lemma burst_at_center cx cy p :
  x p = cx -> y p = cy -> burst_particle cx cy p = set_vel p (vx p + 15) (vy p).
Proof.
  intros <- <-. unfold burst_particle. cbv zeta.
  rewrite Rminus_diag, Rminus_diag, Rmult_0_l, Rplus_0_l, sqrt_0.
  destruct (Rlt_dec 0 burstRadius) as [_|H]; [|unfold burstRadius in H; lra].
  replace (atan2 0 0) with 0
    by (unfold atan2; repeat (destruct (Rlt_dec _ _); try lra)).
  rewrite cos_0, sin_0. unfold burstRadius, burstForce.
  f_equal; field.
Qed.

Lemma burst_outside cx cy p :
  burstRadius <= center_distance cx cy p -> burst_particle cx cy p = p.
Proof.
  unfold center_distance, burst_particle. cbv zeta. intros H.
  destruct (Rlt_dec _ burstRadius); [lra|reflexivity].
Qed.

Lemma burst_norm cx cy p :
  center_distance cx cy p < burstRadius ->
  norm (burst_delta cx cy p) = 15 * (burstRadius - center_distance cx cy p) / burstRadius.
Proof.
  intros Hlt.
  destruct (sqrt_sum_sq_pos (x p - cx) (y p - cy)) as [H0 Hdd].
  fold (center_distance cx cy p) in H0, Hdd.
  unfold burstRadius in *.
  destruct (Rle_lt_or_eq_dec 0 _ H0) as [Hpos|Hzero].
  - rewrite burst_inside by (unfold burstRadius; lra).
    unfold norm. simpl.
    set (d := center_distance cx cy p) in *.
    apply sqrt_lem_1.
    + set (k := 15 * (300 - d) / 300 / d). nra.
    + apply Rmult_le_pos; [|lra]. lra.
    + replace (15 * (300 - d) / 300 / d * (x p - cx) * (15 * (300 - d) / 300 / d * (x p - cx)) +
               15 * (300 - d) / 300 / d * (y p - cy) * (15 * (300 - d) / 300 / d * (y p - cy)))
        with ((15 * (300 - d) / 300 / d) * (15 * (300 - d) / 300 / d) * (d * d))
        by (rewrite Hdd; ring).
      field. lra.
  - assert (Hc : x p = cx /\ y p = cy).
    { rewrite <- Hzero in Hdd.
      pose proof (Rle_0_sqr (x p - cx)). pose proof (Rle_0_sqr (y p - cy)).
      unfold Rsqr in *.
      assert (Ha : (x p - cx) * (x p - cx) = 0) by lra.
      assert (Hb : (y p - cy) * (y p - cy) = 0) by lra.
      apply Rmult_integral in Ha. apply Rmult_integral in Hb.
      split; [destruct Ha | destruct Hb]; lra. }
    destruct Hc as [Hx Hy].
    unfold norm, burst_delta. rewrite (burst_at_center cx cy p Hx Hy). simpl.
    rewrite <- Hzero.
    replace ((vx p + 15 - vx p) * (vx p + 15 - vx p) + (vy p - vy p) * (vy p - vy p))
      with (15 * 15) by ring.
    rewrite sqrt_square; lra.
Qed.

(** A particle created at the middle of a 200 x 200 canvas: [(100, 100)]. *)
Definition center_particle : Particle := new_particle false 200 200 sample_draws.

Lemma center_particle_pos : x center_particle = 100 /\ y center_particle = 100.
Proof. unfold center_particle, new_particle, sample_draws. simpl. split; lra. Qed.

(** C1, counterexample: for a particle at [(100, 100)], a burst centred
    there adds [15] to [vx] (not zero force), and the pointer repulsion
    with the pointer active there divides [0] by [distance = 0], writing
    NaN into its position. *)
Lemma C1_counterexample :
  vx (burst_particle 100 100 center_particle) = vx center_particle + 15 /\
  exists q, repel (Pointer.mk 100 100 true) center_particle = Poisoned q.
Proof.
  destruct center_particle_pos as [Hx Hy].
  rewrite (burst_at_center 100 100 center_particle Hx Hy). split; [reflexivity|].
  exists center_particle. unfold repel. cbn [Pointer.isActive Pointer.x Pointer.y].
  cbv zeta. rewrite Hx, Hy.
  rewrite Rminus_diag, Rmult_0_l, Rplus_0_l, sqrt_0.
  destruct (Rlt_dec 0 forceRadius) as [_|H]; [|unfold forceRadius in H; lra].
  unfold jsdiv. destruct (Req_dec_T 0 0); [reflexivity|congruence].
Qed.

(** C1 (amended): a particle exactly at the burst centre (distance 0) is
    not skipped by the burst: [atan2(0, 0) = 0], so its velocity gains the
    finite delta [(15, 0)] and nothing else of it changes. *)
Theorem C1_burst_at_center (cx cy : R) (p : Particle) :
  x p = cx -> y p = cy ->
  burst_particle cx cy p = set_vel p (vx p + 15) (vy p).
Proof. apply burst_at_center. Qed.

Lemma C1_burst_at_center_witness :
  x center_particle = 100 /\ y center_particle = 100 /\
  burst_particle 100 100 center_particle
    = set_vel center_particle (vx center_particle + 15) (vy center_particle).
Proof.
  assert (H : x center_particle = 100 /\ y center_particle = 100)
    by (unfold center_particle, new_particle, sample_draws; simpl; split; lra).
  destruct H as [Hx Hy].
  split; [exact Hx|]. split; [exact Hy|].
  apply (C1_burst_at_center 100 100 center_particle Hx Hy).
Defined.

(** C4, counterexample: the particle at the burst centre has distance
    [0 < 300], yet its delta [(15, 0)] is no positive multiple of the
    (zero) vector from the centre to it: it does not point away from the
    centre. *)
Lemma C4_counterexample :
  center_distance 100 100 center_particle < burstRadius /\
  ~ (exists k, 0 < k /\
       burst_delta 100 100 center_particle
         = (k * (x center_particle - 100), k * (y center_particle - 100))).
Proof.
  destruct center_particle_pos as [Hx Hy].
  unfold center_distance, burst_delta.
  rewrite (burst_at_center 100 100 center_particle Hx Hy).
  cbn [set_vel vx vy fst snd].
  rewrite Hx, Hy, Rminus_diag, Rmult_0_l, Rplus_0_l, sqrt_0.
  unfold burstRadius. split; [lra|].
  intros (k & _ & Hk). injection Hk as Hk _. lra.
Qed.

(** C4 (amended): for a burst at [(cx, cy)] and a particle at distance
    [d]: if [d < 300] its velocity delta has magnitude [15*(300-d)/300],
    strictly decreasing in [d]; if moreover [d > 0] the delta is a positive
    multiple of the vector from the centre to the particle; at [d = 0] it is
    [(15, 0)]; if [d >= 300] the particle is unchanged. *)
Theorem C4_burst_delta (cx cy : R) :
  (forall p, center_distance cx cy p < burstRadius ->
     norm (burst_delta cx cy p)
       = 15 * (burstRadius - center_distance cx cy p) / burstRadius) /\
  (forall p1 p2,
     center_distance cx cy p1 < center_distance cx cy p2 < burstRadius ->
     norm (burst_delta cx cy p2) < norm (burst_delta cx cy p1)) /\
  (forall p, 0 < center_distance cx cy p < burstRadius ->
     exists k, 0 < k /\ burst_delta cx cy p = (k * (x p - cx), k * (y p - cy))) /\
  (forall p, center_distance cx cy p = 0 -> burst_delta cx cy p = (15, 0)) /\
  (forall p, burstRadius <= center_distance cx cy p -> burst_particle cx cy p = p).
Proof.
  split; [apply burst_norm|].
  split.
  { intros p1 p2 [H12 H2].
    pose proof (sqrt_pos ((x p1 - cx) * (x p1 - cx) + (y p1 - cy) * (y p1 - cy))).
    fold (center_distance cx cy p1) in H.
    rewrite !burst_norm by lra. unfold burstRadius in *. lra. }
  split.
  { intros p Hd. rewrite burst_inside by exact Hd.
    eexists. split; [|reflexivity].
    unfold burstRadius in Hd.
    apply Rdiv_lt_0_compat; [|lra].
    apply Rdiv_lt_0_compat; lra. }
  split; [|apply burst_outside].
  intros p Hz.
  destruct (sqrt_sum_sq_pos (x p - cx) (y p - cy)) as [_ Hdd].
  fold (center_distance cx cy p) in Hdd. rewrite Hz in Hdd.
  pose proof (Rle_0_sqr (x p - cx)). pose proof (Rle_0_sqr (y p - cy)).
  unfold Rsqr in *.
  assert (Ha : (x p - cx) * (x p - cx) = 0) by lra.
  assert (Hb : (y p - cy) * (y p - cy) = 0) by lra.
  apply Rmult_integral in Ha. apply Rmult_integral in Hb.
  assert (Hx : x p = cx) by (destruct Ha; lra).
  assert (Hy : y p = cy) by (destruct Hb; lra).
  unfold burst_delta. rewrite (burst_at_center cx cy p Hx Hy). simpl.
  f_equal; ring.
Qed.

(** The repulsion of a pointer active at [(100, 100)] on a particle whose
    [x] lies in [[149.85, 150.15]] and whose vertical offset from the
    pointer is at most 100 pushes it to [x > 150]. *)
Lemma repel_from_100 (p : Particle) :
  149.85 <= x p <= 150.15 -> (100 - y p) * (100 - y p) <= 100 * 100 ->
  1 <= density p ->
  exists q, repel (Pointer.mk 100 100 true) p = Live q /\ 150 < x q.
Proof.
  intros Hx Hy Hden. unfold repel. cbn [Pointer.isActive Pointer.x Pointer.y].
  cbv zeta.
  destruct (sqrt_sum_sq_pos (100 - x p) (100 - y p)) as [H0 Hdd].
  set (d := sqrt ((100 - x p) * (100 - x p) + (100 - y p) * (100 - y p))) in *.
  assert (Hdx : 49.85 * 49.85 <= (100 - x p) * (100 - x p)) by nra.
  pose proof (Rle_0_sqr (100 - y p)) as Hdy. unfold Rsqr in Hdy.
  assert (Hlo : 49.85 <= d).
  { destruct (Rle_or_lt 49.85 d) as [|Hlt]; [assumption|].
    assert (d * d < 49.85 * 49.85) by nra. lra. }
  assert (Hhi : d <= 112).
  { destruct (Rle_or_lt d 112) as [|Hlt]; [assumption|].
    assert (112 * 112 < d * d) by nra.
    assert ((100 - x p) * (100 - x p) <= 50.15 * 50.15) by nra. lra. }
  destruct (Rlt_dec d forceRadius) as [_|H]; [|unfold forceRadius in H; lra].
  unfold jsdiv.
  destruct (Req_dec_T d 0) as [H|_]; [lra|].
  eexists. split; [reflexivity|]. cbn [x set_pos].
  unfold forceRadius.
  assert (HM : 207 <= (250 - d) * density p * 1.5) by nra.
  assert (H : (100 - x p) * ((250 - d) * density p * 1.5) <= -49.85 * 207) by nra.
  replace ((100 - x p) / d * ((250 - d) / 250) * density p * 1.5)
    with ((100 - x p) * ((250 - d) * density p * 1.5) / (250 * d)) by (field; lra).
  assert (Hq : (100 - x p) * ((250 - d) * density p * 1.5) / (250 * d) < - 0.3).
  { apply Rmult_lt_reg_r with (250 * d); [lra|].
    unfold Rdiv. rewrite Rmult_assoc, Rinv_l, Rmult_1_r by lra. nra. }
  lra.
Qed.

(** C6, counterexample: on a canvas 150 wide, the particle at [(150, 100)]
    with velocity [(0.1, 0)] moves to [x = 150.1 > width], is wrapped to
    [x = 0], and the pointer at [(100, 100)] pushes it further left. *)
Definition c6_particle : Particle :=
  mkParticle 150 100 0.1 0 0.1 0 2 (mkRgba 0 0 0 0.1) 150 100 1.

Lemma C6_counterexample :
  exists q, step_particle false (Pointer.mk 100 100 true) 150 600 0 0 c6_particle = Live q /\
            x q < 150.
Proof.
  unfold step_particle, jitter, move, recover, wrap, c6_particle. cbn.
  unfold wrap_coord.
  destruct (Rlt_dec (150 + (0.1 * 0.96 + 0.1 * 0.04) + 0) 0); [lra|].
  destruct (Rlt_dec 150 (150 + (0.1 * 0.96 + 0.1 * 0.04) + 0)) as [_|H]; [|lra].
  destruct (Rlt_dec (100 + (0 * 0.96 + 0 * 0.04) + 0) 0); [lra|].
  destruct (Rlt_dec 600 (100 + (0 * 0.96 + 0 * 0.04) + 0)); [lra|].
  unfold repel. cbn [Pointer.isActive Pointer.x Pointer.y x y set_pos]. cbv zeta.
  replace ((100 - 0) * (100 - 0) + (100 - (100 + (0 * 0.96 + 0 * 0.04) + 0)) *
           (100 - (100 + (0 * 0.96 + 0 * 0.04) + 0))) with (100 * 100) by ring.
  rewrite sqrt_square by lra.
  destruct (Rlt_dec 100 forceRadius) as [_|H']; [|unfold forceRadius in H'; lra].
  unfold jsdiv. destruct (Req_dec_T 100 0); [lra|].
  eexists. split; [reflexivity|]. cbn [x set_pos density].
  unfold forceRadius. lra.
Qed.

(** C6 (amended): with the pointer active at [(100, 100)], [isAlarming]
    false, a particle at [(150, 100)] whose velocity equals its base
    velocity (components in [[-0.15, 0.15]]), whose density is at least 1
    (as created) and a canvas at least [150.15] wide (so that the particle
    does not wrap), one tick leaves the particle at [x > 150]. *)
Theorem C6_repulsion_pushes_away (width height rx ry : R) (p : Particle) :
  x p = 150 -> y p = 100 -> vx p = baseVx p -> vy p = baseVy p ->
  -0.15 <= baseVx p <= 0.15 -> -0.15 <= baseVy p <= 0.15 ->
  1 <= density p -> 150.15 <= width ->
  exists q, step_particle false (Pointer.mk 100 100 true) width height rx ry p = Live q /\
            150 < x q.
Proof.
  intros Hx Hy Hvx Hvy Hbx Hby Hden Hw.
  unfold step_particle. apply repel_from_100.
  - unfold wrap, move, recover, jitter. cbn [x y vx vy set_pos set_vel fst snd].
    unfold wrap_coord.
    destruct (Rlt_dec _ 0); [lra|].
    destruct (Rlt_dec width _); lra.
  - unfold wrap, move, recover, jitter. cbn [x y vx vy set_pos set_vel fst snd].
    unfold wrap_coord.
    destruct (Rlt_dec _ 0); [lra|].
    destruct (Rlt_dec height _); nra.
  - reflexivity || (unfold wrap, move, recover; cbn; exact Hden).
Qed.

Lemma C6_repulsion_pushes_away_witness :
  exists q, step_particle false (Pointer.mk 100 100 true) 800 600 0 0
              (mkParticle 150 100 0 0 0 0 2 (mkRgba 0 0 0 0.1) 150 100 1) = Live q /\
            150 < x q.
Proof. apply C6_repulsion_pushes_away; cbn; lra. Defined.

Lemma wrap_coord_inside c dim : 0 <= c <= dim -> wrap_coord c dim = c.
Proof.
  intros H. unfold wrap_coord.
  destruct (Rlt_dec c 0); [lra|]. destruct (Rlt_dec dim c); lra.
Qed.

Lemma wrap_coord_below c dim : c < 0 -> 0 <= dim -> wrap_coord c dim = dim.
Proof.
  intros H Hd. unfold wrap_coord.
  destruct (Rlt_dec c 0); [|lra]. destruct (Rlt_dec dim dim); lra.
Qed.

Lemma repel_inactive m p : Pointer.isActive m = false -> repel m p = Live p.
Proof. intros H. unfold repel. now rewrite H. Qed.

Lemma animate_single isDark isAlarming m w h rnd s :
  fst (animate isDark isAlarming m w h rnd [s])
    = [step_slot isAlarming m w h (fst (rnd 0%nat)) (snd (rnd 0%nat)) s].
Proof. reflexivity. Qed.

Lemma store_run_effect isDark isAlarming iw ih m irnd trnd :
  store (run_effect isDark isAlarming iw ih m irnd trnd)
    = fst (animate isDark isAlarming m (IZR iw) (IZR ih) trnd
             (initParticles isDark iw ih irnd)).
Proof.
  unfold run_effect.
  destruct (animate _ _ _ _ _ _ _). reflexivity.
Qed.

Lemma run_effect_deps isDark isAlarming iw ih m irnd trnd :
  deps (run_effect isDark isAlarming iw ih m irnd trnd) = (isDark, isAlarming).
Proof. unfold run_effect. destruct (animate _ _ _ _ _ _ _). reflexivity. Qed.

Lemma run_effect_canvas_w isDark isAlarming iw ih m irnd trnd :
  canvas_w (run_effect isDark isAlarming iw ih m irnd trnd) = iw.
Proof. unfold run_effect. destruct (animate _ _ _ _ _ _ _). reflexivity. Qed.

Lemma run_effect_canvas_h isDark isAlarming iw ih m irnd trnd :
  canvas_h (run_effect isDark isAlarming iw ih m irnd trnd) = ih.
Proof. unfold run_effect. destruct (animate _ _ _ _ _ _ _). reflexivity. Qed.

Lemma frame_deps e trnd : deps (frame e trnd) = deps e.
Proof. unfold frame. destruct (deps e). destruct (animate _ _ _ _ _ _ _). reflexivity. Qed.

Lemma frame_mouse e trnd : mouse (frame e trnd) = mouse e.
Proof. unfold frame. destruct (deps e). destruct (animate _ _ _ _ _ _ _). reflexivity. Qed.

Lemma frame_canvas_w e trnd : canvas_w (frame e trnd) = canvas_w e.
Proof. unfold frame. destruct (deps e). destruct (animate _ _ _ _ _ _ _). reflexivity. Qed.

Lemma frame_canvas_h e trnd : canvas_h (frame e trnd) = canvas_h e.
Proof. unfold frame. destruct (deps e). destruct (animate _ _ _ _ _ _ _). reflexivity. Qed.

Lemma store_frame e trnd :
  store (frame e trnd)
    = fst (animate (fst (deps e)) (snd (deps e)) (mouse e)
             (IZR (canvas_w e)) (IZR (canvas_h e)) trnd (store e)).
Proof.
  unfold frame. destruct (deps e) as [d a].
  destruct (animate _ _ _ _ _ _ _). reflexivity.
Qed.

(** The draws creating a particle at [(1, 300)] on a 15 x 600 canvas, at
    rest, with density 1. *)
Definition c10_draws : Draws := mkDraws (1/15) (1/2) (1/2) (1/2) (1/2) (1/2) 0.

Definition no_jitter : nat -> R * R := fun _ => (0, 0).

(** C10: a reachable run where a frame ends with a particle outside the
    canvas.  A 15 x 600 window gets one particle, created at [(1, 300)] at
    rest with density 1; the mounting frame leaves it there; the mouse moves
    to [(10, 300)]; the next frame's repulsion, applied after the wrap
    step, leaves it at [x < 0].  After the mouse is released, the following
    frame's wrap step puts it back at [x = 15], inside the canvas. *)
Theorem C10_repulsion_leaves_canvas :
  let e0 := run_effect false false 15 600 (Pointer.mk 0 0 false)
              (fun _ => c10_draws) no_jitter in
  let e1 := handleMouseMove e0 10 300 in
  let e2 := frame e1 no_jitter in
  let e3 := frame (handleInteractionEnd e2) no_jitter in
  Pointer.isActive (mouse e2) = true /\
  (exists q, store e2 = [Live q] /\ x q < 0 /\ 0 <= y q <= 600) /\
  (exists q', store e3 = [Live q'] /\ x q' = 15 /\ 0 <= y q' <= 600).
Proof.
  cbv zeta.
  set (p0 := new_particle false (IZR 15) (IZR 600) c10_draws).
  assert (Hinit : initParticles false 15 600 (fun _ => c10_draws) = [Live p0])
    by reflexivity.
  assert (Hp0 : x p0 = 1 /\ y p0 = 300 /\ vx p0 = 0 /\ vy p0 = 0 /\
                baseVx p0 = 0 /\ baseVy p0 = 0 /\ density p0 = 1).
  { unfold p0, new_particle, c10_draws. cbn. repeat split; lra. }
  destruct Hp0 as (Hx0 & Hy0 & Hvx0 & Hvy0 & Hbx0 & Hby0 & Hd0).
  (* the mounting frame *)
  set (p1 := wrap (IZR 15) (IZR 600) (move (recover p0) (jitter false 0 0))).
  assert (He0 : store (run_effect false false 15 600 (Pointer.mk 0 0 false)
                         (fun _ => c10_draws) no_jitter) = [Live p1]).
  { rewrite store_run_effect, Hinit, animate_single. cbn [step_slot].
    unfold step_particle. rewrite repel_inactive by reflexivity. reflexivity. }
  assert (Hp1 : x p1 = 1 /\ y p1 = 300 /\ vx p1 = 0 /\ vy p1 = 0 /\
                baseVx p1 = 0 /\ baseVy p1 = 0 /\ density p1 = 1).
  { unfold p1, wrap, move, recover, jitter. cbn [x y vx vy baseVx baseVy density
      set_pos set_vel fst snd].
    rewrite Hx0, Hy0, Hvx0, Hvy0, Hbx0, Hby0, Hd0.
    rewrite !wrap_coord_inside; [repeat split; ring| |]; split; lra. }
  destruct Hp1 as (Hx1 & Hy1 & Hvx1 & Hvy1 & Hbx1 & Hby1 & Hd1).
  (* the frame after the mouse move *)
  set (p2 := wrap (IZR 15) (IZR 600) (move (recover p1) (jitter false 0 0))).
  assert (Hp2 : x p2 = 1 /\ y p2 = 300 /\ vx p2 = 0 /\ vy p2 = 0 /\
                baseVx p2 = 0 /\ baseVy p2 = 0 /\ density p2 = 1).
  { unfold p2, wrap, move, recover, jitter. cbn [x y vx vy baseVx baseVy density
      set_pos set_vel fst snd].
    rewrite Hx1, Hy1, Hvx1, Hvy1, Hbx1, Hby1, Hd1.
    rewrite !wrap_coord_inside; [repeat split; ring| |]; split; lra. }
  destruct Hp2 as (Hx2 & Hy2 & Hvx2 & Hvy2 & Hbx2 & Hby2 & Hd2).
  set (q := set_pos p2 (1 - (10 - 1) / 9 * ((250 - 9) / 250) * density p2 * 1.5)
                       (300 - (300 - 300) / 9 * ((250 - 9) / 250) * density p2 * 1.5)).
  assert (Hrep : repel (Pointer.mk 10 300 true) p2 = Live q).
  { unfold repel. cbn [Pointer.isActive Pointer.x Pointer.y]. cbv zeta.
    rewrite Hx2, Hy2.
    replace ((10 - 1) * (10 - 1) + (300 - 300) * (300 - 300)) with (9 * 9) by ring.
    rewrite sqrt_square by lra.
    destruct (Rlt_dec 9 forceRadius) as [_|H]; [|unfold forceRadius in H; lra].
    unfold jsdiv. destruct (Req_dec_T 9 0); [lra|].
    unfold forceRadius, q. reflexivity. }
  assert (He2 : store (frame (handleMouseMove
                  (run_effect false false 15 600 (Pointer.mk 0 0 false)
                     (fun _ => c10_draws) no_jitter) 10 300) no_jitter) = [Live q]).
  { rewrite store_frame. cbn [store handleMouseMove mouse canvas_w canvas_h deps].
    rewrite He0, run_effect_deps, run_effect_canvas_w, run_effect_canvas_h.
    cbn [fst snd].
    rewrite animate_single. cbn [step_slot].
    unfold step_particle, no_jitter. cbn [fst snd]. fold p2. rewrite Hrep. reflexivity. }
  assert (Hq : x q = 1 - 1.446 /\ y q = 300 /\ vx q = 0 /\ vy q = 0 /\
               baseVx q = 0 /\ baseVy q = 0).
  { unfold q. cbn [x y vx vy baseVx baseVy set_pos].
    rewrite Hd2, Hvx2, Hvy2, Hbx2, Hby2. repeat split; lra. }
  destruct Hq as (Hxq & Hyq & Hvxq & Hvyq & Hbxq & Hbyq).
  split; [|split].
  - rewrite frame_mouse. reflexivity.
  - exists q. split; [exact He2|]. rewrite Hxq, Hyq. lra.
  - set (e2 := frame (handleMouseMove
                  (run_effect false false 15 600 (Pointer.mk 0 0 false)
                     (fun _ => c10_draws) no_jitter) 10 300) no_jitter) in *.
    assert (Hdeps : deps e2 = (false, false) /\ canvas_w e2 = 15%Z /\
                    canvas_h e2 = 600%Z).
    { unfold e2. rewrite frame_deps, frame_canvas_w, frame_canvas_h.
      cbn [handleMouseMove deps canvas_w canvas_h].
      rewrite run_effect_deps, run_effect_canvas_w, run_effect_canvas_h. auto. }
    destruct Hdeps as (Hdeps & Hw & Hh).
    exists (wrap (IZR 15) (IZR 600) (move (recover q) (jitter false 0 0))).
    split.
    + rewrite store_frame. cbn [store handleInteractionEnd mouse canvas_w canvas_h deps].
      rewrite He2, Hdeps, Hw, Hh, animate_single. cbn [step_slot fst snd].
      unfold step_particle. rewrite repel_inactive by reflexivity. reflexivity.
    + unfold wrap, move, recover, jitter. cbn [x y vx vy baseVx baseVy
        set_pos set_vel fst snd].
      rewrite Hxq, Hyq, Hvxq, Hvyq, Hbxq, Hbyq.
      rewrite wrap_coord_below by lra. rewrite wrap_coord_inside by lra.
      split; [reflexivity|lra].
Qed.

Definition half_draws : nat -> R * R := fun _ => (1/2, 1/2).

(** C8, counterexample: the component mounted on a 15 x 600 window (one
    particle, at [(1, 300)]) with [isAlarming = false] is re-rendered with
    [isAlarming = true]: the effect re-runs and the store is re-created, its
    particle now at [x = 7.5]. *)
Lemma C8_counterexample :
  let e0 := run_effect false false 15 600 (Pointer.mk 0 0 false)
              (fun _ => c10_draws) no_jitter in
  store (rerender e0 false true 15 600 (fun _ => sample_draws) half_draws) <> store e0.
Proof.
  cbv zeta.
  set (e0 := run_effect false false 15 600 (Pointer.mk 0 0 false)
               (fun _ => c10_draws) no_jitter).
  set (p0 := new_particle false (IZR 15) (IZR 600) c10_draws).
  set (p0' := new_particle false (IZR 15) (IZR 600) sample_draws).
  assert (H0 : store e0 = [Live (wrap (IZR 15) (IZR 600)
                                 (move (recover p0) (jitter false 0 0)))]).
  { unfold e0. rewrite store_run_effect.
    replace (initParticles false 15 600 (fun _ => c10_draws)) with [Live p0]
      by reflexivity.
    rewrite animate_single. cbn [step_slot]. unfold step_particle.
    rewrite repel_inactive by reflexivity. reflexivity. }
  assert (H1 : store (rerender e0 false true 15 600 (fun _ => sample_draws) half_draws)
               = [Live (wrap (IZR 15) (IZR 600)
                         (move (recover p0') (jitter true (1/2) (1/2))))]).
  { unfold rerender. unfold e0 at 1 2. rewrite run_effect_deps. cbn [fst snd Bool.eqb andb].
    rewrite store_run_effect.
    replace (initParticles false 15 600 (fun _ => sample_draws)) with [Live p0']
      by reflexivity.
    rewrite animate_single. cbn [step_slot]. unfold step_particle.
    rewrite repel_inactive by reflexivity. reflexivity. }
  rewrite H0, H1. intros Heq.
  apply (f_equal (fun l => match l with Live p :: _ => x p | _ => 0 end)) in Heq.
  cbv beta iota in Heq.
  unfold wrap, move, recover, jitter in Heq.
  cbn [x vx baseVx set_pos set_vel fst snd] in Heq.
  unfold p0, p0', new_particle, c10_draws, sample_draws in Heq.
  cbn [x vx baseVx r_x r_vx] in Heq.
  rewrite !wrap_coord_inside in Heq by lra.
  lra.
Qed.

(** C8 (amended): with [isAlarming] true, each axis of the tick's
    displacement gains [(r - 0.5) * 4], in [[-2, 2)] for a draw [r] of
    [Math.random()], and the velocity the tick writes is the one it writes
    with the flag false.  The flag is a dependency of the effect: when it
    changes between renders, the effect is re-run, which re-creates the
    particle store from fresh draws (and runs one frame). *)
Theorem C8_alarm_flag (rx ry : R) :
  0 <= rx < 1 -> 0 <= ry < 1 ->
  (-2 <= fst (jitter true rx ry) < 2 /\ -2 <= snd (jitter true rx ry) < 2) /\
  (forall p,
     x (move (recover p) (jitter true rx ry))
       = x (move (recover p) (jitter false rx ry)) + fst (jitter true rx ry) /\
     y (move (recover p) (jitter true rx ry))
       = y (move (recover p) (jitter false rx ry)) + snd (jitter true rx ry)) /\
  (forall m w h p,
     vx (slot_particle (step_particle true m w h rx ry p))
       = vx (slot_particle (step_particle false m w h rx ry p)) /\
     vy (slot_particle (step_particle true m w h rx ry p))
       = vy (slot_particle (step_particle false m w h rx ry p))) /\
  (forall e isDark isAlarming iw ih irnd trnd,
     snd (deps e) <> isAlarming ->
     rerender e isDark isAlarming iw ih irnd trnd
       = run_effect isDark isAlarming iw ih (mouse e) irnd trnd).
Proof.
  intros Hrx Hry.
  split; [unfold jitter; simpl; split; lra|].
  split; [intros p; unfold move, jitter; simpl; split; ring|].
  split.
  - intros m w h p.
    destruct (step_slot_vel true m w h rx ry (Live p)) as [Ht1 Ht2].
    destruct (step_slot_vel false m w h rx ry (Live p)) as [Hf1 Hf2].
    simpl in Ht1, Ht2, Hf1, Hf2. rewrite Ht1, Ht2, Hf1, Hf2. auto.
  - intros e isDark isAlarming iw ih irnd trnd Hne. unfold rerender.
    destruct (deps e) as [d a]. simpl in Hne.
    destruct a, isAlarming; try congruence;
      rewrite Bool.andb_false_r; reflexivity.
Qed.

Lemma C8_alarm_flag_witness :
  0 <= 1/2 < 1 /\
  ((-2 <= fst (jitter true (1/2) (1/2)) < 2 /\ -2 <= snd (jitter true (1/2) (1/2)) < 2) /\
   (forall p,
      x (move (recover p) (jitter true (1/2) (1/2)))
        = x (move (recover p) (jitter false (1/2) (1/2))) + fst (jitter true (1/2) (1/2)) /\
      y (move (recover p) (jitter true (1/2) (1/2)))
        = y (move (recover p) (jitter false (1/2) (1/2))) + snd (jitter true (1/2) (1/2))) /\
   (forall m w h p,
      vx (slot_particle (step_particle true m w h (1/2) (1/2) p))
        = vx (slot_particle (step_particle false m w h (1/2) (1/2) p)) /\
      vy (slot_particle (step_particle true m w h (1/2) (1/2) p))
        = vy (slot_particle (step_particle false m w h (1/2) (1/2) p))) /\
   (forall e isDark isAlarming iw ih irnd trnd,
      snd (deps e) <> isAlarming ->
      rerender e isDark isAlarming iw ih irnd trnd
        = run_effect isDark isAlarming iw ih (mouse e) irnd trnd)).
Proof.
  split; [lra|].
  apply C8_alarm_flag; lra.
Defined.

(** ** Further properties of the engine *)

Lemma integrate_nth isAlarming m w h rnd i st k :
  nth_error (fst (integrate isAlarming m w h rnd i st)) k
    = option_map (step_slot isAlarming m w h (fst (rnd (i + k)%nat)) (snd (rnd (i + k)%nat)))
        (nth_error st k).
Proof.
  revert i k. induction st as [|s rest IH]; intros i k; [destruct k; reflexivity|].
  simpl. specialize (IH (S i)).
  destruct (integrate isAlarming m w h rnd (S i) rest) as [rest' cmds] eqn:E.
  destruct k as [|k]; simpl.
  - rewrite Nat.add_0_r. reflexivity.
  - rewrite IH. simpl. rewrite <- plus_n_Sm. reflexivity.
Qed.


Lemma integrate_discs isAlarming m w h rnd i st :
  snd (integrate isAlarming m w h rnd i st)
    = flat_map draw_slot (fst (integrate isAlarming m w h rnd i st)).
Proof.
  revert i. induction st as [|s rest IH]; intros i; [reflexivity|].
  simpl. specialize (IH (S i)).
  destruct (integrate isAlarming m w h rnd (S i) rest) as [rest' cmds].
  simpl in *. now rewrite IH.
Qed.

Lemma init_loop_In fuel i count mk q :
  In q (init_loop fuel i count mk) ->
  exists k, (i <= k)%nat /\ (inject_Z (Z.of_nat k) < count)%Q /\ q = mk k.
Proof.
  revert i. induction fuel as [|f IH]; intros i; simpl; [tauto|].
  destruct (Qlt_le_dec (inject_Z (Z.of_nat i)) count) as [Hi|Hi]; [|simpl; tauto].
  intros [<-|Hin].
  - exists i. auto.
  - destruct (IH (S i) Hin) as (k & Hk & Hc & ->). exists k. split; [lia|auto].
Qed.

(** The ranges of [Math.random()]. *)
Definition draws_ok (d : Draws) : Prop :=
  0 <= r_x d < 1 /\ 0 <= r_y d < 1 /\ 0 <= r_vx d < 1 /\ 0 <= r_vy d < 1 /\
  0 <= r_size d < 1 /\ 0 <= r_color d < 1 /\ 0 <= r_density d < 1.

(** The colours [initParticles] can produce. *)
Definition color_ok (isDark : bool) (c : Rgba) : Prop :=
  if isDark then red c = 255%Z /\ green c = 255%Z /\ blue c = 255%Z /\ 0.1 <= alpha c < 0.3
  else red c = 0%Z /\ green c = 0%Z /\ blue c = 0%Z /\ 0.05 <= alpha c < 0.2.

(** A particle freshly created on a [width x height] canvas. *)
Definition fresh_particle (isDark : bool) (width height : R) (p : Particle) : Prop :=
  0 <= x p < width /\ 0 <= y p <= height /\ (0 < height -> y p < height) /\
  vx p = baseVx p /\ vy p = baseVy p /\
  -0.15 <= baseVx p < 0.15 /\ -0.15 <= baseVy p < 0.15 /\
  1 <= size p < 3 /\ 1 <= density p < 31 /\
  baseX p = x p /\ baseY p = y p /\ color_ok isDark (color p).

Lemma new_particle_fresh isDark w h d :
  0 < w -> 0 <= h -> draws_ok d -> fresh_particle isDark w h (new_particle isDark w h d).
Proof.
  intros Hw Hh (Hx & Hy & Hvx & Hvy & Hs & Hc & Hd).
  unfold fresh_particle, new_particle. cbn [x y vx vy baseVx baseVy size density
    baseX baseY color].
  repeat split; try nra.
  unfold color_ok. destruct isDark; simpl; repeat split; lra.
Qed.

(** X1: after a resize the canvas has the window's size and every particle
    of the re-created store is finite and fresh: inside the canvas, at rest
    relative to its base velocity in [[-0.15, 0.15)], size in [[1, 3)],
    density in [[1, 31)], [baseX, baseY] its position, colour by [isDark]. *)
Theorem X1_resize_fresh_store (e : Engine) (innerWidth innerHeight : Z)
    (rnd : nat -> Draws) :
  (0 <= innerHeight)%Z -> (forall i, draws_ok (rnd i)) ->
  canvas_w (resizeCanvas e innerWidth innerHeight rnd) = innerWidth /\
  canvas_h (resizeCanvas e innerWidth innerHeight rnd) = innerHeight /\
  Forall (fun s => exists p, s = Live p /\
            fresh_particle (fst (deps e)) (IZR innerWidth) (IZR innerHeight) p)
    (store (resizeCanvas e innerWidth innerHeight rnd)).
Proof.
  intros Hh Hrnd. split; [reflexivity|]. split; [reflexivity|].
  cbn [store resizeCanvas]. unfold initParticles.
  apply Forall_map, Forall_forall. intros q Hq.
  apply init_loop_In in Hq. destruct Hq as (k & _ & Hk & ->).
  eexists. split; [reflexivity|].
  apply new_particle_fresh; [| apply IZR_le; exact Hh | apply Hrnd].
  assert (Hpos : (0 < innerWidth # 15)%Q).
  { apply Qle_lt_trans with (inject_Z (Z.of_nat k)).
    - unfold Qle; simpl; lia.
    - apply Qlt_le_trans with (1 := Hk). apply Q.le_min_l. }
  apply IZR_lt. unfold Qlt in Hpos. simpl in Hpos. lia.
Qed.

Lemma X1_resize_fresh_store_witness :
  let e := mkEngine (false, false) [] (Pointer.mk 0 0 false) 0 0 in
  (0 <= 600)%Z /\ (forall i : nat, draws_ok sample_draws) /\
  (canvas_w (resizeCanvas e 30 600 (fun _ => sample_draws)) = 30%Z /\
   canvas_h (resizeCanvas e 30 600 (fun _ => sample_draws)) = 600%Z /\
   Forall (fun s => exists p, s = Live p /\
             fresh_particle (fst (deps e)) (IZR 30) (IZR 600) p)
     (store (resizeCanvas e 30 600 (fun _ => sample_draws)))).
Proof.
  cbv zeta.
  assert (H : forall i : nat, draws_ok sample_draws)
    by (intros _; unfold draws_ok, sample_draws; simpl; repeat split; lra).
  split; [lia|]. split; [exact H|].
  apply (X1_resize_fresh_store (mkEngine (false, false) [] (Pointer.mk 0 0 false) 0 0)
           30 600 (fun _ => sample_draws)); [lia | exact H].
Defined.

Definition slot_pos (s : Slot) : R * R := (x (slot_particle s), y (slot_particle s)).

Definition is_live (s : Slot) : bool := match s with Live _ => true | Poisoned _ => false end.

(** X2: a burst ([mousedown] or [touchstart]) changes velocities only: the
    store keeps its length, every particle its position and its finite or
    NaN status. *)
Theorem X2_burst_keeps_positions (cx cy : R) (st : list Slot) :
  length (handleInteractionStart cx cy st) = length st /\
  map slot_pos (handleInteractionStart cx cy st) = map slot_pos st /\
  map is_live (handleInteractionStart cx cy st) = map is_live st.
Proof.
  unfold handleInteractionStart. rewrite length_map, !map_map.
  split; [reflexivity|]. split; apply map_ext; intros [p|p]; try reflexivity.
  unfold slot_pos. cbn [slot_particle burst_slot]. unfold burst_particle. cbv zeta.
  match goal with |- context [Rlt_dec ?a ?b] => destruct (Rlt_dec a b) end; reflexivity.
Qed.


(** X4: while the pointer is inactive (after [mouseup] / [touchend], or
    before any move), a frame turns no particle's position into NaN and ends
    with every finite particle inside the canvas. *)
Theorem X4_inactive_frame_in_canvas (isDark isAlarming : bool) (m : Pointer.t)
    (w h : R) (rnd : nat -> R * R) (st : list Slot) :
  Pointer.isActive m = false -> 0 <= w -> 0 <= h ->
  forall k p, nth_error st k = Some (Live p) ->
  exists q, nth_error (fst (animate isDark isAlarming m w h rnd st)) k = Some (Live q) /\
    0 <= x q <= w /\ 0 <= y q <= h.
Proof.
  intros Hm Hw Hh k p Hk.
  unfold animate.
  pose proof (integrate_nth isAlarming m w h rnd 0 st k) as Hn.
  destruct (integrate isAlarming m w h rnd 0 st) as [st' cmds]. simpl in *.
  rewrite Hn, Hk. simpl. unfold step_particle. rewrite repel_inactive by exact Hm.
  eexists. split; [reflexivity|].
  unfold wrap. cbn [x y set_pos].
  split; apply wrap_coord_range; assumption.
Qed.

Lemma X4_inactive_frame_in_canvas_witness :
  exists q, nth_error (fst (animate false false (Pointer.mk 0 0 false) 800 600 half_draws
                              [Live c6_particle])) 0 = Some (Live q) /\
    0 <= x q <= 800 /\ 0 <= y q <= 600.
Proof.
  apply (X4_inactive_frame_in_canvas false false (Pointer.mk 0 0 false) 800 600 half_draws
           [Live c6_particle]) with (p := c6_particle); [reflexivity | lra | lra | reflexivity].
Defined.

Definition pointer_distance (m : Pointer.t) (p : Particle) : R :=
  sqrt ((Pointer.x m - x p) * (Pointer.x m - x p) + (Pointer.y m - y p) * (Pointer.y m - y p)).

(** X5: in a tick, a finite particle's position becomes NaN exactly when
    the pointer is active and the particle, after the move and wrap steps,
    sits exactly on the pointer. *)
Theorem X5_poison_iff_on_pointer (isAlarming : bool) (m : Pointer.t) (w h rx ry : R)
    (p : Particle) :
  let p1 := wrap w h (move (recover p) (jitter isAlarming rx ry)) in
  (exists q, step_particle isAlarming m w h rx ry p = Poisoned q) <->
  (Pointer.isActive m = true /\ x p1 = Pointer.x m /\ y p1 = Pointer.y m).
Proof.
  cbv zeta. unfold step_particle.
  set (p1 := wrap w h (move (recover p) (jitter isAlarming rx ry))).
  unfold repel. fold (pointer_distance m p1).
  destruct (sqrt_sum_sq_pos (Pointer.x m - x p1) (Pointer.y m - y p1)) as [H0 Hdd].
  fold (pointer_distance m p1) in H0, Hdd.
  destruct (Pointer.isActive m).
  2: { split; [intros (q & Hq); discriminate | intros (H & _); discriminate]. }
  cbv zeta. unfold jsdiv.
  destruct (Req_dec_T (pointer_distance m p1) 0) as [Hz|Hz].
  - rewrite Hz in Hdd.
    pose proof (Rle_0_sqr (Pointer.x m - x p1)). pose proof (Rle_0_sqr (Pointer.y m - y p1)).
    unfold Rsqr in *.
    assert (Ha : (Pointer.x m - x p1) * (Pointer.x m - x p1) = 0) by lra.
    assert (Hb : (Pointer.y m - y p1) * (Pointer.y m - y p1) = 0) by lra.
    apply Rmult_integral in Ha. apply Rmult_integral in Hb.
    destruct (Rlt_dec (pointer_distance m p1) forceRadius) as [_|Hf];
      [|unfold forceRadius in Hf; lra].
    split; [intros _ | eauto].
    split; [reflexivity|]. split; [destruct Ha | destruct Hb]; lra.
  - split.
    + intros (q & Hq). destruct (Rlt_dec _ forceRadius); discriminate.
    + intros (_ & Hx & Hy). exfalso. apply Hz.
      rewrite Hx, Hy in Hdd. rewrite Rminus_diag, Rmult_0_l, Rplus_0_l in Hdd.
      nra.
Qed.



(** The velocity kick of a burst as a function of the position only. *)
Definition burst_kick (cx cy px py : R) : R * R :=
  let dx := px - cx in
  let dy := py - cy in
  let distance := sqrt (dx * dx + dy * dy) in
  if Rlt_dec distance burstRadius then
    let force := (burstRadius - distance) / burstRadius in
    let angle := atan2 dy dx in
    (cos angle * force * burstForce, sin angle * force * burstForce)
  else (0, 0).

Lemma set_vel_same p : set_vel p (vx p) (vy p) = p.
Proof. destruct p; reflexivity. Qed.

Lemma burst_particle_kick cx cy p :
  burst_particle cx cy p
    = set_vel p (vx p + fst (burst_kick cx cy (x p) (y p)))
                (vy p + snd (burst_kick cx cy (x p) (y p))).
Proof.
  unfold burst_particle, burst_kick. cbv zeta.
  match goal with |- context [Rlt_dec ?a ?b] => destruct (Rlt_dec a b) end.
  - reflexivity.
  - cbn [fst snd]. rewrite !Rplus_0_r. symmetry. apply set_vel_same.
Qed.

(** X7: two bursts commute: the store after a [mousedown] at [c1] and then
    one at [c2] is the store after the two in the opposite order (each burst
    reads positions only, which bursts do not change, and adds to the
    velocity). *)
Theorem X7_bursts_commute (c1x c1y c2x c2y : R) (st : list Slot) :
  handleInteractionStart c1x c1y (handleInteractionStart c2x c2y st)
    = handleInteractionStart c2x c2y (handleInteractionStart c1x c1y st).
Proof.
  unfold handleInteractionStart. rewrite !map_map. apply map_ext.
  intros [p|p]; [|reflexivity]. cbn [burst_slot]. f_equal.
  rewrite !(burst_particle_kick _ _ (burst_particle _ _ p)).
  rewrite !(burst_particle_kick _ _ p). cbn [x y vx vy set_vel].
  unfold set_vel. cbn [x y vx vy baseVx baseVy size color baseX baseY density].
  f_equal; ring.
Qed.

(** X8: the velocity change of one burst has magnitude
    [max 0 (15 * (300 - d) / 300)], [d] the distance to the burst: at most
    15, and zero from 300 on. *)
Theorem X8_burst_magnitude (cx cy : R) (p : Particle) :
  norm (burst_delta cx cy p)
    = Rmax 0 (burstForce * (burstRadius - center_distance cx cy p) / burstRadius) /\
  norm (burst_delta cx cy p) <= burstForce.
Proof.
  assert (H0 : 0 <= center_distance cx cy p) by apply sqrt_pos.
  assert (Heq : norm (burst_delta cx cy p)
    = Rmax 0 (burstForce * (burstRadius - center_distance cx cy p) / burstRadius)).
  { destruct (Rlt_or_le (center_distance cx cy p) burstRadius) as [Hlt|Hge].
    - rewrite burst_norm by exact Hlt. rewrite Rmax_right; [reflexivity|].
      unfold burstForce, burstRadius in *. lra.
    - unfold burst_delta. rewrite burst_outside by exact Hge.
      rewrite Rmax_left by (unfold burstForce, burstRadius in *; lra).
      unfold norm. cbn [fst snd]. rewrite !Rminus_diag, Rmult_0_l, Rplus_0_l.
      exact sqrt_0. }
  split; [exact Heq|]. rewrite Heq.
  apply Rmax_lub; unfold burstForce, burstRadius in *; lra.
Qed.

Lemma connect_from_length isDark i p j rest :
  (length (connect_from isDark i p j rest) <= length rest)%nat.
Proof.
  revert j. induction rest as [|[q|q] rest IH]; intros j; simpl; [lia| |].
  - rewrite length_app. specialize (IH (S j)).
    destruct (Rlt_dec (distance p q) connectDistance); simpl; lia.
  - specialize (IH (S j)). lia.
Qed.

(** X9: the connection pass strokes at most one line per pair of
    particles: [2 * #lines <= n * (n - 1)]. *)
Theorem X9_connection_count (isDark : bool) (k : nat) (ps : list Slot) :
  (2 * length (connect isDark k ps) <= length ps * (length ps - 1))%nat.
Proof.
  revert k. induction ps as [|[p|p] rest IH]; intros k; simpl; [lia| |].
  - rewrite length_app. pose proof (connect_from_length isDark k p (S k) rest).
    specialize (IH (S k)). rewrite Nat.sub_0_r.
    destruct (length rest) as [|n]; simpl in *; nia.
  - specialize (IH (S k)). rewrite Nat.sub_0_r.
    destruct (length rest) as [|n]; simpl in *; nia.
Qed.

Definition is_segment (c : Cmd) : bool :=
  match c with Segment _ _ _ _ _ _ _ _ => true | Disc _ _ _ _ => false end.

(** X10: a frame draws first one disc per finite particle of the updated
    store, in store order, then the connecting lines, each with an alpha in
    [(0, 0.08]]. *)
Theorem X10_frame_draw_order (isDark isAlarming : bool) (m : Pointer.t)
    (w h : R) (rnd : nat -> R * R) (st : list Slot) :
  let '(st', cmds) := animate isDark isAlarming m w h rnd st in
  cmds = flat_map draw_slot st' ++ connect isDark 0 st' /\
  forallb (fun c => negb (is_segment c)) (flat_map draw_slot st') = true /\
  forall i j x1 y1 x2 y2 stroke lw,
    In (Segment i j x1 y1 x2 y2 stroke lw) cmds -> 0 < alpha stroke <= 0.08.
Proof.
  unfold animate.
  pose proof (integrate_discs isAlarming m w h rnd 0 st) as Hd.
  destruct (integrate isAlarming m w h rnd 0 st) as [st' discs]. simpl in Hd. subst discs.
  split; [reflexivity|]. split.
  - apply forallb_forall. intros c Hc. apply in_flat_map in Hc.
    destruct Hc as ([p|p] & _ & Hc); simpl in Hc; [|destruct Hc].
    destruct Hc as [<-|[]]. reflexivity.
  - intros i j x1 y1 x2 y2 stroke lw Hin. apply in_app_iff in Hin.
    destruct Hin as [Hin|Hin].
    + apply in_flat_map in Hin. destruct Hin as ([p|p] & _ & Hc); simpl in Hc;
        [destruct Hc as [Hc|[]]; discriminate | destruct Hc].
    + apply connect_spec in Hin.
      destruct Hin as (i' & j' & p & q & _ & _ & _ & Hlt & Hc).
      injection Hc as _ _ _ _ _ _ -> _.
      assert (0 <= distance p q) by apply sqrt_pos.
      unfold connectDistance in Hlt.
      destruct isDark; simpl; lra.
Qed.

Lemma integrate_no_alarm m w h rnd1 rnd2 i j st :
  integrate false m w h rnd1 i st = integrate false m w h rnd2 j st.
Proof.
  revert i j. induction st as [|s rest IH]; intros i j; [reflexivity|].
  simpl. rewrite (IH (S i) (S j)).
  replace (step_slot false m w h (fst (rnd1 i)) (snd (rnd1 i)) s)
    with (step_slot false m w h (fst (rnd2 j)) (snd (rnd2 j)) s)
    by (destruct s; reflexivity).
  reflexivity.
Qed.

(** X11: without the alarm, a frame draws no random number: its result does
    not depend on the [Math.random()] values. *)
Theorem X11_no_alarm_deterministic (isDark : bool) (m : Pointer.t) (w h : R)
    (rnd1 rnd2 : nat -> R * R) (st : list Slot) :
  animate isDark false m w h rnd1 st = animate isDark false m w h rnd2 st.
Proof.
  unfold animate. rewrite (integrate_no_alarm m w h rnd1 rnd2 0 0 st). reflexivity.
Qed.





